(** * result.h: a generic result type and its checking macros

    A shallow embedding of [source/result.h]: the enumeration [result_t],
    the macros [ERR_GOTO], [ERR_RET], [ERR_RET_VOID] and [ERR_RET_RESULT] as
    statements of a small state-and-exit monad, and the description lookup
    [result_get_string], of which the header holds the prototype only. *)

From Stdlib Require Import ZArith List String Bool Lia.
Import ListNotations.
Local Open Scope string_scope.
Local Open Scope Z_scope.

(** ** The result type (result.h, lines 45-54) *)

Inductive result_t : Type :=
| RESULT_OK
| RESULT_ERROR_ARGUMENT_INVALID
| RESULT_ERROR_MEMORY_NOT_ENOUGH
| RESULT_ERROR_HARDWARE_NO_DEVICE
| RESULT_ERROR_HARDWARE_BUSY
| RESULT_ERROR_HARDWARE_IO
| RESULT_ERROR_OTHER
| _RESULT_COUNT.

(** The enumerators in the order of their declaration. *)
Definition result_enumerators : list result_t :=
  [ RESULT_OK;
    RESULT_ERROR_ARGUMENT_INVALID;
    RESULT_ERROR_MEMORY_NOT_ENOUGH;
    RESULT_ERROR_HARDWARE_NO_DEVICE;
    RESULT_ERROR_HARDWARE_BUSY;
    RESULT_ERROR_HARDWARE_IO;
    RESULT_ERROR_OTHER;
    _RESULT_COUNT ].

(** C's numbering of enumerators that have no initialiser: the first one is
    [0], every other one is its predecessor plus one. *)
Fixpoint enumerate {A : Type} (next : Z) (names : list A) : list (A * Z) :=
  match names with
  | [] => []
  | name :: rest => (name, next) :: enumerate (next + 1) rest
  end.

(** The integer constant each enumerator stands for. *)
Definition result_to_int (r : result_t) : Z :=
  match r with
  | RESULT_OK => 0
  | RESULT_ERROR_ARGUMENT_INVALID => 1
  | RESULT_ERROR_MEMORY_NOT_ENOUGH => 2
  | RESULT_ERROR_HARDWARE_NO_DEVICE => 3
  | RESULT_ERROR_HARDWARE_BUSY => 4
  | RESULT_ERROR_HARDWARE_IO => 5
  | RESULT_ERROR_OTHER => 6
  | _RESULT_COUNT => 7
  end.

(** The enumerator an integer stands for, when there is one. *)
Definition result_of_int (z : Z) : option result_t :=
  List.find (fun r => result_to_int r =? z) result_enumerators.

(** "OK - The operation was successfull": the test the header itself applies
    in [ERR_RET_RESULT] is the comparison with [RESULT_OK]. *)
Definition is_success (r : result_t) : bool :=
  result_to_int r =? result_to_int RESULT_OK.

(** [_RESULT_COUNT] is "Result options count": the options proper are the
    enumerators below it. *)
Definition is_option (r : result_t) : bool :=
  result_to_int r <? result_to_int _RESULT_COUNT.

Definition result_options : list result_t :=
  List.filter is_option result_enumerators.

Definition result_errors : list result_t :=
  List.filter (fun r => negb (is_success r)) result_options.

(** ** The description lookup (result.h, line 129: prototype only) *)

(** What a call of [result_get_string] can yield: the null pointer, a pointer
    to a C string, or a read past the end of the table of descriptions (which
    C leaves undefined). *)
Inductive description : Type :=
| NULL
| Str (s : string)
| Out_of_bounds.

(** Modelled from the spec: the table of description strings read by
    [result_get_string] is not in the header, and the specification quotes no
    description text. The entries are the "Meaning" column of the
    specification's table of outcome kinds (section 3), one per real kind, in
    the order of the enumerators. *)
Definition result_strings : list string :=
  [ "operation succeeded";
    "a supplied argument failed validation";
    "allocation/resource exhaustion";
    "expected hardware/device did not appear";
    "hardware resource was busy";
    "a transmission/I/O fault occurred at the hardware boundary";
    "unclassified failure" ].

(** A read of a table at an index, with the bounds written out. *)
Definition table_read (table : list string) (index : Z) : description :=
  if index <? 0 then Out_of_bounds
  else match nth_error table (Z.to_nat index) with
       | Some s => Str s
       | None => Out_of_bounds
       end.

(** Modelled from the spec: the body of [result_get_string] is not in the
    header, which declares it ("return NULL if invalid result was provided,
    pointer to the C-String with result description"). Following section 4.1
    of the specification: an input outside the valid range, the terminal
    marker included, yields the absent indicator without any table access;
    every other input yields the table entry of that kind. The argument is the
    integer the caller passes for the [result_t] parameter. *)
Definition result_get_string_from (table : list string) (result : Z) : description :=
  if (result <? 0) || (result_to_int _RESULT_COUNT <=? result) then NULL
  else table_read table result.

Definition result_get_string (result : Z) : description :=
  result_get_string_from result_strings result.

(** ** Statements and expressions of the enclosing function *)

(** How a statement can leave the normal flow of control. *)
Inductive transfer (label value : Type) : Type :=
| Goto (l : label)          (* goto l; *)
| Return (v : value)        (* return v; *)
| Return_void               (* return; *)
| Abort.                    (* a failed assert: the program is aborted *)

Arguments Goto {label value} l.
Arguments Return {label value} v.
Arguments Return_void {label value}.
Arguments Abort {label value}.

(** A statement either completes, so that control reaches the statement that
    follows it, or it transfers control away. *)
Inductive outcome (label value A : Type) : Type :=
| Next (a : A)
| Leave (t : transfer label value).

Arguments Next {label value A} a.
Arguments Leave {label value A} t.

(** The two preprocessor symbols the expansion of the macros depends on:
    [RESULT_ASSERT] (result.h, line 33) and the standard [NDEBUG], which turns
    [assert] of <assert.h> into a no-op. *)
Record config : Type := Config {
  RESULT_ASSERT : bool;
  NDEBUG : bool
}.

(** An [int] has 32 bits. *)
Definition INT_BITS : Z := 32.

(** The conversion [(int)(v)] of an integer value: values in the range of
    [int] are kept, all others wrap around modulo [2^32]. *)
Definition int_cast (v : Z) : Z :=
  (v + 2 ^ (INT_BITS - 1)) mod 2 ^ INT_BITS - 2 ^ (INT_BITS - 1).

Section Statements.

Context {state label value : Type}.

(** An expression is evaluated in a state, and may change it. *)
Definition expr (A : Type) : Type := state -> A * state.

Definition exec (A : Type) : Type := state -> outcome label value A * state.

Definition stmt : Type := exec unit.

Definition ret {A : Type} (a : A) : exec A := fun s => (Next a, s).

Definition bind {A B : Type} (c : exec A) (k : A -> exec B) : exec B :=
  fun s =>
    match c s with
    | (Next a, s') => k a s'
    | (Leave t, s') => (Leave t, s')
    end.

Definition eval {A : Type} (e : expr A) : exec A :=
  fun s => let (a, s') := e s in (Next a, s').

Definition leave {A : Type} (t : transfer label value) : exec A :=
  fun s => (Leave t, s).

(** [(int)(e)]: the expression is evaluated, its value converted. *)
Definition cast_to_int (e : expr Z) : expr Z :=
  fun s => let (v, s') := e s in (int_cast v, s').

Definition skip : stmt := ret tt.

Definition goto (l : label) : stmt := leave (Goto l).

Definition return_ (e : expr value) : stmt :=
  bind (eval e) (fun v => leave (Return v)).

Definition return_void : stmt := leave Return_void.

(** [do body while (0)]: the body runs once, and since the controlling
    expression is the constant [0] it is not repeated. No macro body holds a
    [break] or a [continue]. *)
Definition do_while_0 (body : stmt) : stmt := body.

End Statements.

Arguments expr : clear implicits.
Arguments exec : clear implicits.
Arguments stmt : clear implicits.

Declare Scope stmt_scope.
Delimit Scope stmt_scope with stmt.

Notation "x <- c ;; k" := (bind c (fun x => k))
  (at level 61, c at next level, right associativity) : stmt_scope.
Notation "c ;; k" := (bind c (fun _ => k))
  (at level 61, right associativity) : stmt_scope.

Local Open Scope stmt_scope.

(** ** The macros (result.h, lines 33-38 and 63-121) *)

Section Macros.

Context {state label value : Type}.
Variable cfg : config.

(** [assert(expression)] of <assert.h>: nothing with [NDEBUG] defined,
    otherwise the program is aborted when the expression is [0]. *)
Definition assert (expression : Z) : stmt state label value :=
  if NDEBUG cfg then skip
  else if expression =? 0 then leave Abort else skip.

(** [assert(0)] when [RESULT_ASSERT] is defined, empty otherwise. *)
Definition RESULT_ASSERT_FAIL_FUNCTION : stmt state label value :=
  if RESULT_ASSERT cfg then assert 0 else skip.

Definition ERR_GOTO (condition : expr state Z) (goto_label : label)
  : stmt state label value :=
  do_while_0 (
    _ERR_RET_CONDITION <- eval (cast_to_int condition) ;;
    if _ERR_RET_CONDITION =? 0 then
      RESULT_ASSERT_FAIL_FUNCTION ;;
      goto goto_label
    else skip).

Definition ERR_RET (condition : expr state Z) (return_value : expr state value)
  : stmt state label value :=
  do_while_0 (
    _ERR_RET_CONDITION <- eval (cast_to_int condition) ;;
    if _ERR_RET_CONDITION =? 0 then
      RESULT_ASSERT_FAIL_FUNCTION ;;
      return_ return_value
    else skip).

Definition ERR_RET_VOID (condition : expr state Z) : stmt state label value :=
  do_while_0 (
    _ERR_RET_CONDITION <- eval (cast_to_int condition) ;;
    if _ERR_RET_CONDITION =? 0 then
      RESULT_ASSERT_FAIL_FUNCTION ;;
      return_void
    else skip).

End Macros.

(** *** ERR_RET_RESULT (result.h, lines 114-121)

    The body declares [_ERR_RESULT] and then tests and returns [_ERRRESULT].
    What [_ERRRESULT] denotes is decided where the macro is expanded, by the
    declarations in scope there. *)

Section Result_macro.

Context {state label : Type}.
Variable cfg : config.

(** What an identifier used in the body of the macro denotes: the variable the
    body declares itself, or an object of the enclosing function. *)
Inductive binding : Type :=
| Block_local
| Enclosing (read : state -> Z).

(** The integer objects of the enclosing function, by name. *)
Definition scope : Type := string -> option (state -> Z).

Definition resolve (declared : string) (enclosing : scope) (name : string)
  : option binding :=
  if String.eqb name declared then Some Block_local
  else option_map Enclosing (enclosing name).

Definition read (b : binding) (block_local : Z) : expr state Z :=
  fun s =>
    match b with
    | Block_local => (block_local, s)
    | Enclosing get => (get s, s)
    end.

(** [(result_t)(e)]: [result_t] is held in an integer of the size of [int];
    the conversion keeps every enumerator. *)
Definition cast_to_result (e : expr state Z) : expr state Z := cast_to_int e.

(** [None]: the expansion names an undeclared identifier and is rejected by
    the compiler. *)
Definition ERR_RET_RESULT (enclosing : scope) (result : expr state Z)
  : option (stmt state label Z) :=
  match resolve "_ERR_RESULT" enclosing "_ERRRESULT" with
  | None => None
  | Some _ERRRESULT =>
      Some (do_while_0 (
        _ERR_RESULT <- eval (cast_to_result result) ;;
        tested <- eval (read _ERRRESULT _ERR_RESULT) ;;
        if negb (tested =? result_to_int RESULT_OK) then
          RESULT_ASSERT_FAIL_FUNCTION cfg ;;
          return_ (read _ERRRESULT _ERR_RESULT)
        else skip))
  end.

End Result_macro.

Arguments binding : clear implicits.
Arguments scope : clear implicits.

(** ** Counting the evaluations of an expression *)

(** The expression [e], run in a state that carries a counter next to the
    state proper: every evaluation adds one to the counter. *)
Definition counted {state A : Type} (e : expr state A) : expr (nat * state) A :=
  fun '(n, s) => let (a, s') := e s in (a, (S n, s')).

(** The expression [e] in such a state, leaving the counter alone. *)
Definition uncounted {state A : Type} (e : expr state A) : expr (nat * state) A :=
  fun '(n, s) => let (a, s') := e s in (a, (n, s')).

(** An expression without side effects. *)
Definition pure {state A : Type} (a : A) : expr state A := fun s => (a, s).

(** The diagnostic hook stops the program: [RESULT_ASSERT] is defined and
    [assert] has not been disabled. *)
Definition hook_aborts (cfg : config) : bool :=
  RESULT_ASSERT cfg && negb (NDEBUG cfg).

(** The statement did not complete: its failure branch was taken. *)
Definition leaves {label value A : Type} (o : outcome label value A) : bool :=
  match o with
  | Next _ => false
  | Leave _ => true
  end.

(** A scope whose only object is an [_ERRRESULT] that holds [v]. *)
Definition scope_with_ERRRESULT {state : Type} (v : Z) : scope state :=
  fun name => if String.eqb name "_ERRRESULT" then Some (fun _ => v) else None.

(** A scope without any object. *)
Definition scope_empty {state : Type} : scope state := fun _ => None.

(** The objects of a scope, read in a state that carries a counter. *)
Definition scope_uncounted {state : Type} (enclosing : scope state)
  : scope (nat * state) :=
  fun name => option_map (fun get '(_, s) => get s) (enclosing name).

(** * Properties *)

(** ** The enumeration *)

Lemma result_to_int_enumerate :
  map (fun r => (r, result_to_int r)) result_enumerators
  = enumerate 0 result_enumerators.
Proof. reflexivity. Qed.

Lemma result_enumerators_complete (r : result_t) : In r result_enumerators.
Proof. destruct r; simpl; tauto. Qed.

Lemma result_to_int_inj (a b : result_t) :
  result_to_int a = result_to_int b -> a = b.
Proof. destruct a, b; simpl; intros H; (reflexivity || discriminate H). Qed.

Lemma result_to_int_range (r : result_t) :
  0 <= result_to_int r <= result_to_int _RESULT_COUNT.
Proof. destruct r; simpl; lia. Qed.

Lemma result_of_to_int (r : result_t) : result_of_int (result_to_int r) = Some r.
Proof. destruct r; reflexivity. Qed.

Lemma is_option_spec (r : result_t) : is_option r = true <-> r <> _RESULT_COUNT.
Proof.
  destruct r; cbv; split; intros H; congruence.
Qed.

Lemma is_success_spec (r : result_t) : is_success r = true <-> r = RESULT_OK.
Proof.
  unfold is_success. rewrite Z.eqb_eq. split.
  - apply result_to_int_inj.
  - intros ->. reflexivity.
Qed.

Lemma NoDup_map_inj {A B : Type} (f : A -> B) (l : list A) :
  (forall a b, f a = f b -> a = b) -> NoDup l -> NoDup (map f l).
Proof.
  intros Hinj Hl. induction Hl as [|a l Hnotin _ IH]; simpl; constructor.
  - rewrite in_map_iff. intros [b [Hab Hb]].
    apply Hinj in Hab. subst b. contradiction.
  - exact IH.
Qed.

Lemma result_enumerators_NoDup : NoDup result_enumerators.
Proof.
  unfold result_enumerators.
  repeat (constructor; [simpl; intuition discriminate|]). constructor.
Qed.

(** C8: [result_t] has eight enumerators, numbered from 0 in the order of
    their declaration: seven result options and, last, the marker
    [_RESULT_COUNT], whose value is the number of options. Exactly one
    enumerator, [RESULT_OK], denotes success; the six other options are
    errors, and no two enumerators share a value. *)
Theorem result_t_enumeration :
  (forall r : result_t, In r result_enumerators) /\
  NoDup result_enumerators /\
  List.length result_enumerators = 8%nat /\
  map (fun r => (r, result_to_int r)) result_enumerators
    = enumerate 0 result_enumerators /\
  List.length result_options = 7%nat /\
  (forall r : result_t, In r result_options <-> r <> _RESULT_COUNT) /\
  result_to_int _RESULT_COUNT = Z.of_nat (List.length result_options) /\
  (forall r : result_t, is_success r = true <-> r = RESULT_OK) /\
  List.length result_errors = 6%nat /\
  (forall r : result_t,
     In r result_errors <-> r <> RESULT_OK /\ r <> _RESULT_COUNT) /\
  NoDup (map result_to_int result_enumerators).
Proof.
  split; [exact result_enumerators_complete|].
  split; [exact result_enumerators_NoDup|].
  split; [reflexivity|].
  split; [exact result_to_int_enumerate|].
  split; [reflexivity|].
  split.
  { intros r. unfold result_options. rewrite filter_In, is_option_spec.
    pose proof (result_enumerators_complete r). tauto. }
  split; [reflexivity|].
  split; [exact is_success_spec|].
  split; [reflexivity|].
  split.
  { intros r. unfold result_errors, result_options.
    rewrite !filter_In, is_option_spec, negb_true_iff.
    pose proof (result_enumerators_complete r).
    pose proof (is_success_spec r).
    destruct (is_success r); intuition congruence. }
  apply NoDup_map_inj.
  - exact result_to_int_inj.
  - exact result_enumerators_NoDup.
Qed.

(** ** The description lookup *)

Lemma result_get_string_from_outside (table : list string) (result : Z) :
  result < 0 \/ result_to_int _RESULT_COUNT <= result ->
  result_get_string_from table result = NULL.
Proof.
  intros H. unfold result_get_string_from.
  destruct (result <? 0) eqn:Hlo; [reflexivity|].
  destruct (result_to_int _RESULT_COUNT <=? result) eqn:Hhi; [reflexivity|].
  apply Z.ltb_ge in Hlo. apply Z.leb_gt in Hhi. lia.
Qed.

Lemma table_read_inside (table : list string) (index : Z) :
  0 <= index < Z.of_nat (List.length table) ->
  exists s, nth_error table (Z.to_nat index) = Some s /\ table_read table index = Str s.
Proof.
  intros H. unfold table_read.
  destruct (index <? 0) eqn:Hlo; [apply Z.ltb_lt in Hlo; lia|].
  destruct (nth_error table (Z.to_nat index)) as [s|] eqn:Hnth.
  - exists s. split; reflexivity.
  - apply nth_error_None in Hnth. lia.
Qed.

Lemma result_get_string_from_inside (table : list string) (result : Z) :
  Z.of_nat (List.length table) = result_to_int _RESULT_COUNT ->
  0 <= result < result_to_int _RESULT_COUNT ->
  exists s, nth_error table (Z.to_nat result) = Some s
            /\ result_get_string_from table result = Str s.
Proof.
  intros Hlen H. unfold result_get_string_from.
  destruct (result <? 0) eqn:Hlo; [apply Z.ltb_lt in Hlo; lia|].
  destruct (result_to_int _RESULT_COUNT <=? result) eqn:Hhi;
    [apply Z.leb_le in Hhi; lia|].
  simpl. apply table_read_inside. lia.
Qed.

Lemma result_strings_length :
  Z.of_nat (List.length result_strings) = result_to_int _RESULT_COUNT.
Proof. reflexivity. Qed.

Lemma result_strings_nonempty (s : string) : In s result_strings -> s <> "".
Proof.
  unfold result_strings. simpl.
  intros H. repeat (destruct H as [<-|H]; [discriminate|]). contradiction.
Qed.

Lemma result_strings_NoDup : NoDup result_strings.
Proof.
  unfold result_strings.
  repeat (constructor; [simpl; intuition discriminate|]). constructor.
Qed.

(** C1: for every value from [RESULT_OK] to [RESULT_ERROR_OTHER], both
    included, [result_get_string] returns a pointer to a string (not the null
    pointer), and the string is not empty. *)
Theorem result_get_string_valid (result : Z) :
  result_to_int RESULT_OK <= result <= result_to_int RESULT_ERROR_OTHER ->
  exists s : string,
    result_get_string result = Str s /\ s <> "" /\ (0 < String.length s)%nat.
Proof.
  intros H. simpl in H.
  destruct (result_get_string_from_inside result_strings result) as [s [Hnth Hget]].
  - exact result_strings_length.
  - simpl. lia.
  - exists s. split; [exact Hget|].
    apply nth_error_In in Hnth. apply result_strings_nonempty in Hnth.
    split; [exact Hnth|].
    destruct s; [congruence | simpl; lia].
Qed.

Lemma result_get_string_valid_witness :
  exists s : string,
    result_get_string (result_to_int RESULT_ERROR_HARDWARE_BUSY) = Str s
    /\ s <> "" /\ (0 < String.length s)%nat.
Proof.
  apply (result_get_string_valid (result_to_int RESULT_ERROR_HARDWARE_BUSY)).
  simpl. lia.
Defined.

Lemma result_get_string_in_bounds (result : Z) :
  result_get_string result <> Out_of_bounds.
Proof.
  destruct (Z.ltb_spec result 0) as [Hlo|Hlo];
    [|destruct (Z.leb_spec (result_to_int _RESULT_COUNT) result) as [Hhi|Hhi]].
  - unfold result_get_string.
    rewrite result_get_string_from_outside by (left; exact Hlo). discriminate.
  - unfold result_get_string.
    rewrite result_get_string_from_outside by (right; exact Hhi). discriminate.
  - destruct (result_get_string_from_inside result_strings result)
      as [s [_ Hget]].
    + exact result_strings_length.
    + lia.
    + unfold result_get_string. rewrite Hget. discriminate.
Qed.

(** C2: for [_RESULT_COUNT] and for every integer outside the enumerated
    range, [result_get_string] returns [NULL]; and no call, whatever its
    argument, reads the table of descriptions out of its bounds. *)
Theorem result_get_string_invalid (result : Z) :
  result < result_to_int RESULT_OK \/ result_to_int _RESULT_COUNT <= result ->
  result_get_string result = NULL
  /\ (forall any : Z, result_get_string any <> Out_of_bounds).
Proof.
  intros H. split.
  - apply result_get_string_from_outside. exact H.
  - exact result_get_string_in_bounds.
Qed.

Lemma result_get_string_invalid_witness :
  (result_get_string (result_to_int _RESULT_COUNT) = NULL
   /\ (forall any : Z, result_get_string any <> Out_of_bounds))
  /\ (result_get_string (-1) = NULL
      /\ (forall any : Z, result_get_string any <> Out_of_bounds)).
Proof.
  split.
  - apply (result_get_string_invalid (result_to_int _RESULT_COUNT)).
    right. simpl. lia.
  - apply (result_get_string_invalid (-1)). left. simpl. lia.
Defined.

(** C7: the descriptions of two different result options are different
    strings: the one of [RESULT_OK] differs from that of every error, and no
    two errors share their description. *)
Theorem result_get_string_distinct (a b : result_t) :
  is_option a = true -> is_option b = true -> a <> b ->
  exists sa sb : string,
    result_get_string (result_to_int a) = Str sa
    /\ result_get_string (result_to_int b) = Str sb
    /\ sa <> sb.
Proof.
  intros Ha Hb Hab.
  unfold is_option in Ha, Hb. apply Z.ltb_lt in Ha, Hb.
  pose proof (result_to_int_range a) as Ra.
  pose proof (result_to_int_range b) as Rb.
  destruct (result_get_string_from_inside result_strings (result_to_int a))
    as [sa [Hna Hga]]; [exact result_strings_length | lia |].
  destruct (result_get_string_from_inside result_strings (result_to_int b))
    as [sb [Hnb Hgb]]; [exact result_strings_length | lia |].
  exists sa, sb. split; [exact Hga|]. split; [exact Hgb|].
  intros Heq. subst sb.
  assert (Hidx : Z.to_nat (result_to_int a) = Z.to_nat (result_to_int b)).
  { apply (proj1 (NoDup_nth_error result_strings) result_strings_NoDup).
    - apply nth_error_Some. rewrite Hna. discriminate.
    - rewrite Hna, Hnb. reflexivity. }
  apply Hab, result_to_int_inj. lia.
Qed.

Lemma result_get_string_distinct_witness :
  exists sa sb : string,
    result_get_string (result_to_int RESULT_ERROR_HARDWARE_BUSY) = Str sa
    /\ result_get_string (result_to_int RESULT_ERROR_HARDWARE_IO) = Str sb
    /\ sa <> sb.
Proof.
  apply (result_get_string_distinct RESULT_ERROR_HARDWARE_BUSY RESULT_ERROR_HARDWARE_IO).
  - reflexivity.
  - reflexivity.
  - discriminate.
Defined.

(** ** The guarded constructs *)

Ltac int_bits :=
  unfold int_cast;
  change (2 ^ (INT_BITS - 1)) with 2147483648 in *;
  change (2 ^ INT_BITS) with 4294967296 in *.

Lemma int_cast_small (v : Z) :
  - 2 ^ (INT_BITS - 1) <= v < 2 ^ (INT_BITS - 1) -> int_cast v = v.
Proof.
  int_bits. intros H.
  rewrite Z.mod_small by lia. lia.
Qed.

Lemma int_cast_range (v : Z) :
  - 2 ^ (INT_BITS - 1) <= int_cast v < 2 ^ (INT_BITS - 1).
Proof.
  int_bits.
  pose proof (Z.mod_pos_bound (v + 2147483648) 4294967296). lia.
Qed.

Lemma int_cast_zero_iff (v : Z) :
  int_cast v = 0 <-> exists k : Z, v = k * 2 ^ INT_BITS.
Proof.
  int_bits. split.
  - intros H. exists ((v + 2147483648) / 4294967296).
    pose proof (Z.div_mod (v + 2147483648) 4294967296 ltac:(lia)) as Hdm.
    remember ((v + 2147483648) / 4294967296) as q.
    remember ((v + 2147483648) mod 4294967296) as m.
    lia.
  - intros [k ->].
    replace (k * 4294967296 + 2147483648) with (2147483648 + k * 4294967296) by lia.
    rewrite Z.mod_add by lia. reflexivity.
Qed.

(** Within the range of [int], only 0 converts to 0: negative values and
    values other than 1 are as good as 1. *)
Lemma int_cast_nonzero (v : Z) :
  - 2 ^ (INT_BITS - 1) <= v < 2 ^ (INT_BITS - 1) -> v <> 0 -> int_cast v <> 0.
Proof. intros H Hv. rewrite int_cast_small by exact H. exact Hv. Qed.

Section Guarded.

Context {state label value : Type}.
Implicit Types (cfg : config) (condition : expr state Z) (s : state).
Implicit Types (goto_label : label) (return_value : expr state value).
Implicit Types (rest : stmt state label value).

Lemma RESULT_ASSERT_FAIL_FUNCTION_run cfg s :
  @RESULT_ASSERT_FAIL_FUNCTION state label value cfg s
  = (if hook_aborts cfg then Leave Abort else Next tt, s).
Proof.
  unfold RESULT_ASSERT_FAIL_FUNCTION, assert, hook_aborts.
  destruct cfg as [[|] [|]]; reflexivity.
Qed.

Lemma ERR_GOTO_run cfg condition goto_label s :
  @ERR_GOTO state label value cfg condition goto_label s
  = if int_cast (fst (condition s)) =? 0
    then (Leave (if hook_aborts cfg then Abort else Goto goto_label),
          snd (condition s))
    else (Next tt, snd (condition s)).
Proof.
  unfold ERR_GOTO, do_while_0, bind, eval, cast_to_int.
  destruct (condition s) as [v s1]. simpl.
  destruct (int_cast v =? 0); [|reflexivity].
  rewrite RESULT_ASSERT_FAIL_FUNCTION_run.
  destruct (hook_aborts cfg); reflexivity.
Qed.

Lemma ERR_RET_run cfg condition return_value s :
  @ERR_RET state label value cfg condition return_value s
  = if int_cast (fst (condition s)) =? 0
    then if hook_aborts cfg
         then (Leave Abort, snd (condition s))
         else (Leave (Return (fst (return_value (snd (condition s))))),
               snd (return_value (snd (condition s))))
    else (Next tt, snd (condition s)).
Proof.
  unfold ERR_RET, do_while_0, bind, eval, cast_to_int.
  destruct (condition s) as [v s1]. simpl.
  destruct (int_cast v =? 0); [|reflexivity].
  rewrite RESULT_ASSERT_FAIL_FUNCTION_run.
  destruct (hook_aborts cfg); [reflexivity|].
  unfold return_, bind, eval, leave.
  destruct (return_value s1) as [r s2]. reflexivity.
Qed.

Lemma ERR_RET_VOID_run cfg condition s :
  @ERR_RET_VOID state label value cfg condition s
  = if int_cast (fst (condition s)) =? 0
    then (Leave (if hook_aborts cfg then Abort else Return_void),
          snd (condition s))
    else (Next tt, snd (condition s)).
Proof.
  unfold ERR_RET_VOID, do_while_0, bind, eval, cast_to_int.
  destruct (condition s) as [v s1]. simpl.
  destruct (int_cast v =? 0); [|reflexivity].
  rewrite RESULT_ASSERT_FAIL_FUNCTION_run.
  destruct (hook_aborts cfg); reflexivity.
Qed.

(** What follows a statement runs only when the statement completes. *)
Lemma bind_Leave {A B : Type} (c : exec state label value A)
  (k : A -> exec state label value B) s t s' :
  c s = (Leave t, s') -> bind c k s = (Leave t, s').
Proof. unfold bind. intros ->. reflexivity. Qed.

Lemma bind_Next {A B : Type} (c : exec state label value A)
  (k : A -> exec state label value B) s a s' :
  c s = (Next a, s') -> bind c k s = k a s'.
Proof. unfold bind. intros ->. reflexivity. Qed.

End Guarded.

Section Guarded_claims.

Context {state label value : Type}.
Implicit Types (cfg : config) (condition : expr state Z) (s : state).
Implicit Types (goto_label : label) (return_value : expr state value).
Implicit Types (rest : stmt state label value).

(** C4, as the header has it: when the condition converts to the [int] 0,
    [ERR_GOTO] never falls through to the statement that follows it. It jumps
    to exactly the given label, except where the diagnostic hook is a live
    [assert(0)] ([RESULT_ASSERT] defined, [NDEBUG] not): there the program is
    aborted before the [goto] is reached. *)
Theorem ERR_GOTO_falsy cfg condition goto_label rest s :
  int_cast (fst (condition s)) = 0 ->
  ERR_GOTO (value:=value) cfg condition goto_label s
  = (Leave (if hook_aborts cfg then Abort else Goto goto_label),
     snd (condition s))
  /\ (ERR_GOTO (value:=value) cfg condition goto_label ;; rest) s
     = ERR_GOTO (value:=value) cfg condition goto_label s.
Proof.
  intros H.
  assert (Hrun : ERR_GOTO (value:=value) cfg condition goto_label s
                 = (Leave (if hook_aborts cfg then Abort else Goto goto_label),
                    snd (condition s))).
  { rewrite ERR_GOTO_run, H. reflexivity. }
  split; [exact Hrun|].
  rewrite Hrun. apply bind_Leave. exact Hrun.
Qed.

(** C5, as the header has it: when the condition converts to the [int] 0,
    [ERR_RET] runs no further statement of the function. It returns exactly
    the value of the given expression, except where the diagnostic hook is a
    live [assert(0)]: there the program is aborted before the [return]. *)
Theorem ERR_RET_falsy cfg condition return_value rest s :
  int_cast (fst (condition s)) = 0 ->
  ERR_RET (label:=label) cfg condition return_value s
  = (if hook_aborts cfg
     then (Leave Abort, snd (condition s))
     else (Leave (Return (fst (return_value (snd (condition s))))),
           snd (return_value (snd (condition s)))))
  /\ (ERR_RET (label:=label) cfg condition return_value ;; rest) s
     = ERR_RET (label:=label) cfg condition return_value s.
Proof.
  intros H.
  pose proof (ERR_RET_run (label:=label) cfg condition return_value s) as Hrun.
  rewrite H in Hrun. simpl in Hrun.
  split; [exact Hrun|].
  destruct (hook_aborts cfg); rewrite Hrun; apply bind_Leave; exact Hrun.
Qed.

(** C6: when the condition converts to a nonzero [int], each of [ERR_GOTO],
    [ERR_RET] and [ERR_RET_VOID] completes (no jump, no return, no abort),
    whatever the configuration, and the statement that follows it runs next,
    in the state the evaluation of the condition left. *)
Theorem guarded_truthy cfg condition goto_label return_value rest s :
  int_cast (fst (condition s)) <> 0 ->
  (ERR_GOTO (value:=value) cfg condition goto_label s = (Next tt, snd (condition s))
   /\ (ERR_GOTO (value:=value) cfg condition goto_label ;; rest) s = rest (snd (condition s)))
  /\ (ERR_RET (label:=label) cfg condition return_value s = (Next tt, snd (condition s))
      /\ (ERR_RET (label:=label) cfg condition return_value ;; rest) s = rest (snd (condition s)))
  /\ (@ERR_RET_VOID state label value cfg condition s = (Next tt, snd (condition s))
      /\ (ERR_RET_VOID cfg condition ;; rest) s = rest (snd (condition s))).
Proof.
  intros H. apply Z.eqb_neq in H.
  pose proof (ERR_GOTO_run (value:=value) cfg condition goto_label s) as Hg.
  pose proof (ERR_RET_run (label:=label) cfg condition return_value s) as Hr.
  pose proof (ERR_RET_VOID_run (label:=label) (value:=value) cfg condition s) as Hv.
  rewrite H in Hg, Hr, Hv.
  repeat split; try assumption.
  - exact (bind_Next _ _ _ _ _ Hg).
  - exact (bind_Next _ _ _ _ _ Hr).
  - exact (bind_Next _ _ _ _ _ Hv).
Qed.

(** C9: each of [ERR_GOTO], [ERR_RET] and [ERR_RET_VOID] evaluates its
    condition exactly once, whatever the condition yields and whatever the
    configuration: run with a condition that counts its own evaluations, the
    construct ends with the counter one higher than it started. *)
Theorem guarded_condition_once cfg condition goto_label return_value (n : nat) s :
  fst (snd (@ERR_GOTO _ label value cfg (counted condition) goto_label (n, s)))
  = S n
  /\ fst (snd (@ERR_RET _ label value cfg (counted condition)
                 (uncounted return_value) (n, s)))
     = S n
  /\ fst (snd (@ERR_RET_VOID _ label value cfg (counted condition) (n, s)))
     = S n.
Proof.
  rewrite ERR_GOTO_run, ERR_RET_run, ERR_RET_VOID_run.
  unfold counted, uncounted. simpl.
  destruct (condition s) as [v s1]. simpl.
  destruct (int_cast v =? 0); simpl; repeat split.
  destruct (hook_aborts cfg); simpl; [reflexivity|].
  destruct (return_value s1); reflexivity.
Qed.

(** C10, as the header has it: in each of [ERR_GOTO], [ERR_RET] and
    [ERR_RET_VOID] the failure branch is taken exactly when the condition,
    converted to [int], is 0. Every nonzero value in the range of [int],
    negative ones included, lets the construct complete; a value of a wider
    type converts to 0, and so fails, exactly when it is a multiple of
    [2^32]. *)
Theorem guarded_fails_iff_cast_zero cfg condition goto_label return_value s :
  (leaves (fst (@ERR_GOTO state label value cfg condition goto_label s))
   = (int_cast (fst (condition s)) =? 0)
   /\ leaves (fst (@ERR_RET state label value cfg condition return_value s))
      = (int_cast (fst (condition s)) =? 0)
   /\ leaves (fst (@ERR_RET_VOID state label value cfg condition s))
      = (int_cast (fst (condition s)) =? 0))
  /\ (int_cast (fst (condition s)) = 0
      <-> exists k : Z, fst (condition s) = k * 2 ^ INT_BITS)
  /\ (- 2 ^ (INT_BITS - 1) <= fst (condition s) < 2 ^ (INT_BITS - 1) ->
      fst (condition s) <> 0 ->
      @ERR_GOTO state label value cfg condition goto_label s
      = (Next tt, snd (condition s))
      /\ @ERR_RET state label value cfg condition return_value s
         = (Next tt, snd (condition s))
      /\ @ERR_RET_VOID state label value cfg condition s
         = (Next tt, snd (condition s))).
Proof.
  split; [|split].
  - rewrite ERR_GOTO_run, ERR_RET_run, ERR_RET_VOID_run.
    destruct (int_cast (fst (condition s)) =? 0); simpl; repeat split.
    destruct (hook_aborts cfg); reflexivity.
  - apply int_cast_zero_iff.
  - intros Hrange Hv.
    pose proof (int_cast_nonzero _ Hrange Hv) as Hcast.
    apply Z.eqb_neq in Hcast.
    rewrite ERR_GOTO_run, ERR_RET_run, ERR_RET_VOID_run, Hcast.
    repeat split.
Qed.

End Guarded_claims.

(** ** The constructs at work

    The enclosing function of these runs has one [int] variable as its state,
    string labels, and returns a [result_t]. *)

Lemma ERR_GOTO_falsy_witness :
  ERR_GOTO (value:=Z) (Config false false) (fun x => (x, x + 1)) "cleanup" 0
  = (Leave (Goto "cleanup"), 1)
  /\ (ERR_GOTO (value:=Z) (Config false false) (fun x => (x, x + 1)) "cleanup" ;;
      goto "unreached") 0
     = ERR_GOTO (Config false false) (fun x => (x, x + 1)) "cleanup" 0.
Proof.
  apply (ERR_GOTO_falsy (Config false false) (fun x => (x, x + 1)) "cleanup"
           (goto "unreached") 0).
  reflexivity.
Defined.

(** With [RESULT_ASSERT] defined (and [NDEBUG] not), [ERR_GOTO] on a condition
    that is 0 does not reach its label: [assert(0)] aborts the program. *)
Lemma ERR_GOTO_falsy_live_assert :
  int_cast (fst (pure (state:=Z) 0 0)) = 0
  /\ ERR_GOTO (value:=Z) (Config true false) (pure 0) "cleanup" 0
     = (Leave Abort, 0)
  /\ fst (ERR_GOTO (value:=Z) (Config true false) (pure 0) "cleanup" 0)
     <> Leave (Goto "cleanup").
Proof.
  split; [reflexivity|]. split; [reflexivity|]. discriminate.
Qed.

Lemma ERR_RET_falsy_witness :
  ERR_RET (label:=string) (Config false false) (fun x => (x, x + 1))
    (pure (result_to_int RESULT_ERROR_ARGUMENT_INVALID)) 0
  = (Leave (Return (result_to_int RESULT_ERROR_ARGUMENT_INVALID)), 1)
  /\ (ERR_RET (label:=string) (Config false false) (fun x => (x, x + 1))
        (pure (result_to_int RESULT_ERROR_ARGUMENT_INVALID)) ;;
      return_ (pure (result_to_int RESULT_OK))) 0
     = ERR_RET (Config false false) (fun x => (x, x + 1))
         (pure (result_to_int RESULT_ERROR_ARGUMENT_INVALID)) 0.
Proof.
  apply (ERR_RET_falsy (Config false false) (fun x => (x, x + 1))
           (pure (result_to_int RESULT_ERROR_ARGUMENT_INVALID))
           (return_ (pure (result_to_int RESULT_OK))) 0).
  reflexivity.
Defined.

(** With [RESULT_ASSERT] defined (and [NDEBUG] not), [ERR_RET] on a condition
    that is 0 does not return the given value: [assert(0)] aborts first. *)
Lemma ERR_RET_falsy_live_assert :
  int_cast (fst (pure (state:=Z) 0 0)) = 0
  /\ ERR_RET (label:=string) (Config true false) (pure 0)
       (pure (result_to_int RESULT_ERROR_ARGUMENT_INVALID)) 0
     = (Leave Abort, 0)
  /\ fst (ERR_RET (label:=string) (Config true false) (pure 0)
            (pure (result_to_int RESULT_ERROR_ARGUMENT_INVALID)) 0)
     <> Leave (Return (result_to_int RESULT_ERROR_ARGUMENT_INVALID)).
Proof.
  split; [reflexivity|]. split; [reflexivity|]. discriminate.
Qed.

Lemma guarded_truthy_witness :
  (ERR_GOTO (value:=Z) (Config true false) (pure (-1)) "cleanup" 0 = (Next tt, 0)
   /\ (ERR_GOTO (value:=Z) (Config true false) (pure (-1)) "cleanup" ;;
       return_ (pure (result_to_int RESULT_OK))) 0
      = return_ (pure (result_to_int RESULT_OK)) 0)
  /\ (ERR_RET (label:=string) (Config true false) (pure (-1))
        (pure (result_to_int RESULT_ERROR_OTHER)) 0 = (Next tt, 0)
      /\ (ERR_RET (label:=string) (Config true false) (pure (-1))
            (pure (result_to_int RESULT_ERROR_OTHER)) ;;
          return_ (pure (result_to_int RESULT_OK))) 0
         = return_ (pure (result_to_int RESULT_OK)) 0)
  /\ (ERR_RET_VOID (label:=string) (value:=Z) (Config true false) (pure (-1)) 0
      = (Next tt, 0)
      /\ (ERR_RET_VOID (label:=string) (value:=Z) (Config true false) (pure (-1)) ;;
          return_ (pure (result_to_int RESULT_OK))) 0
         = return_ (pure (result_to_int RESULT_OK)) 0).
Proof.
  apply (guarded_truthy (Config true false) (pure (-1)) "cleanup"
           (pure (result_to_int RESULT_ERROR_OTHER))
           (return_ (pure (result_to_int RESULT_OK))) 0).
  discriminate.
Defined.

Lemma guarded_fails_iff_cast_zero_witness :
  ERR_GOTO (value:=Z) (Config true false) (pure (-7)) "cleanup" 0 = (Next tt, 0)
  /\ ERR_RET (label:=string) (Config true false) (pure (-7))
       (pure (result_to_int RESULT_ERROR_OTHER)) 0 = (Next tt, 0)
  /\ ERR_RET_VOID (label:=string) (value:=Z) (Config true false) (pure (-7)) 0
     = (Next tt, 0).
Proof.
  destruct (guarded_fails_iff_cast_zero (label:=string) (Config true false)
              (pure (-7)) "cleanup" (pure (result_to_int RESULT_ERROR_OTHER)) 0)
    as [_ [_ H]].
  apply H.
  - vm_compute. split; [discriminate | reflexivity].
  - discriminate.
Defined.

(** A condition of type [long long] with the value [2^32] is a nonzero
    integer, and yet every guarded construct takes its failure branch on it:
    the value is 0 once converted to [int]. *)
Lemma guarded_wide_nonzero_fails :
  fst (pure (state:=Z) (2 ^ 32) 0) <> 0
  /\ ERR_GOTO (value:=Z) (Config false false) (pure (2 ^ 32)) "cleanup" 0
     = (Leave (Goto "cleanup"), 0)
  /\ ERR_RET (label:=string) (Config false false) (pure (2 ^ 32))
       (pure (result_to_int RESULT_ERROR_OTHER)) 0
     = (Leave (Return (result_to_int RESULT_ERROR_OTHER)), 0)
  /\ ERR_RET_VOID (label:=string) (value:=Z) (Config false false)
       (pure (2 ^ 32)) 0
     = (Leave Return_void, 0).
Proof.
  split; [discriminate|]. repeat split.
Qed.

(** A condition of a type wider than [int] whose value is a multiple of
    [2^32] is 0 once converted, and fails. *)
Example ERR_RET_VOID_wide_condition :
  ERR_RET_VOID (label:=string) (value:=Z) (Config false false)
    (pure (2 ^ 32)) 0
  = (Leave Return_void, 0).
Proof. reflexivity. Qed.

(** With [NDEBUG] defined the hook is empty even under [RESULT_ASSERT]. *)
Example ERR_GOTO_NDEBUG :
  ERR_GOTO (value:=Z) (Config true true) (pure 0) "cleanup" 0
  = (Leave (Goto "cleanup"), 0).
Proof. reflexivity. Qed.

(** ** ERR_RET_RESULT *)

Section Result_macro_properties.

Context {state label : Type}.
Implicit Types (cfg : config) (enclosing : scope state) (result : expr state Z).

(** The identifier the body tests is never the variable the body declares. *)
Lemma resolve_ERRRESULT enclosing :
  resolve "_ERR_RESULT" enclosing "_ERRRESULT"
  = option_map (@Enclosing state) (enclosing "_ERRRESULT").
Proof. reflexivity. Qed.

Lemma ERR_RET_RESULT_undeclared cfg enclosing result :
  enclosing "_ERRRESULT" = None ->
  @ERR_RET_RESULT state label cfg enclosing result = None.
Proof.
  intros H. unfold ERR_RET_RESULT. rewrite resolve_ERRRESULT, H. reflexivity.
Qed.

(** Where an [_ERRRESULT] is in scope, it alone decides the outcome: the value
    of the argument is computed and dropped. *)
Lemma ERR_RET_RESULT_run cfg enclosing result (get : state -> Z) :
  enclosing "_ERRRESULT" = Some get ->
  exists body : stmt state label Z,
    ERR_RET_RESULT cfg enclosing result = Some body
    /\ forall s : state,
         body s
         = (if get (snd (result s)) =? result_to_int RESULT_OK then Next tt
            else Leave (if hook_aborts cfg then Abort
                        else Return (get (snd (result s)))),
            snd (result s)).
Proof.
  intros H. unfold ERR_RET_RESULT. rewrite resolve_ERRRESULT, H. simpl.
  eexists. split; [reflexivity|].
  intros s. unfold do_while_0, bind, eval, cast_to_result, cast_to_int, read.
  destruct (result s) as [v s1]. simpl.
  destruct (get s1 =? 0); simpl; [reflexivity|].
  rewrite RESULT_ASSERT_FAIL_FUNCTION_run.
  destruct (hook_aborts cfg); reflexivity.
Qed.

End Result_macro_properties.

(** C3 fails on the header: the body of [ERR_RET_RESULT] declares
    [_ERR_RESULT] but tests and returns [_ERRRESULT]. Passed
    [RESULT_ERROR_OTHER] in a function without an [_ERRRESULT], the expansion
    is rejected; with an [_ERRRESULT] in scope that holds [RESULT_OK] it
    completes instead of returning [RESULT_ERROR_OTHER]; and passed
    [RESULT_OK] with an [_ERRRESULT] that holds [RESULT_ERROR_HARDWARE_IO], it
    returns [RESULT_ERROR_HARDWARE_IO] instead of completing. *)
Theorem ERR_RET_RESULT_identifier_mismatch :
  @ERR_RET_RESULT Z string (Config false false) scope_empty
    (pure (result_to_int RESULT_ERROR_OTHER)) = None
  /\ option_map (fun body => body 0)
       (@ERR_RET_RESULT Z string (Config false false)
          (scope_with_ERRRESULT (result_to_int RESULT_OK))
          (pure (result_to_int RESULT_ERROR_OTHER)))
     = Some (Next tt, 0)
  /\ option_map (fun body => body 0)
       (@ERR_RET_RESULT Z string (Config false false)
          (scope_with_ERRRESULT (result_to_int RESULT_ERROR_HARDWARE_IO))
          (pure (result_to_int RESULT_OK)))
     = Some (Leave (Return (result_to_int RESULT_ERROR_HARDWARE_IO)), 0).
Proof. repeat split. Qed.

(** * Further properties of the header *)

(** ** The guarded constructs (result.h, lines 33-38 and 63-104) *)

Section Guarded_further.

Context {state label value : Type}.
Implicit Types (cfg : config) (condition : expr state Z) (s : state).
Implicit Types (goto_label : label) (return_value : expr state value).
Implicit Types (rest : stmt state label value).

(** X1: when the condition converts to the [int] 0, [ERR_RET_VOID] never
    reaches the statement that follows it: it returns from the function, or,
    where the hook is a live [assert(0)], the program is aborted before the
    [return]. The state is the one the condition left. *)
Theorem ERR_RET_VOID_falsy cfg condition rest s :
  int_cast (fst (condition s)) = 0 ->
  ERR_RET_VOID (label:=label) (value:=value) cfg condition s
  = (Leave (if hook_aborts cfg then Abort else Return_void), snd (condition s))
  /\ (ERR_RET_VOID cfg condition ;; rest) s
     = ERR_RET_VOID (label:=label) (value:=value) cfg condition s.
Proof.
  intros H.
  pose proof (ERR_RET_VOID_run (label:=label) (value:=value) cfg condition s)
    as Hrun.
  rewrite H in Hrun. simpl in Hrun.
  split; [exact Hrun|].
  rewrite Hrun. apply bind_Leave. exact Hrun.
Qed.

(** X2: a guarded construct aborts the program exactly when [RESULT_ASSERT]
    is defined, [NDEBUG] is not, and the condition converts to the [int] 0.
    Without [RESULT_ASSERT], or with [NDEBUG], none of them ever aborts. *)
Theorem guarded_aborts_iff cfg condition goto_label return_value s :
  (fst (ERR_GOTO (value:=value) cfg condition goto_label s) = Leave Abort
   <-> RESULT_ASSERT cfg = true /\ NDEBUG cfg = false
       /\ int_cast (fst (condition s)) = 0)
  /\ (fst (ERR_RET (label:=label) cfg condition return_value s) = Leave Abort
      <-> RESULT_ASSERT cfg = true /\ NDEBUG cfg = false
          /\ int_cast (fst (condition s)) = 0)
  /\ (fst (ERR_RET_VOID (label:=label) (value:=value) cfg condition s)
      = Leave Abort
      <-> RESULT_ASSERT cfg = true /\ NDEBUG cfg = false
          /\ int_cast (fst (condition s)) = 0).
Proof.
  rewrite ERR_GOTO_run, ERR_RET_run, ERR_RET_VOID_run.
  unfold hook_aborts.
  destruct (Z.eqb_spec (int_cast (fst (condition s))) 0) as [Hz|Hz];
    destruct cfg as [[|] [|]]; simpl;
    repeat split; intros; try discriminate; try tauto;
    repeat match goal with
           | H : _ /\ _ |- _ => destruct H
           end; try discriminate; try contradiction.
Qed.

(** X3: [ERR_RET] evaluates the expression for the returned value at most
    once: exactly once when the condition converts to the [int] 0 and the
    hook does not abort, and not at all otherwise (the check passes, or the
    program is aborted first). *)
Theorem ERR_RET_return_value_count cfg condition return_value (n : nat) s :
  fst (snd (ERR_RET (label:=label) cfg (uncounted condition)
              (counted return_value) (n, s)))
  = if (int_cast (fst (condition s)) =? 0) && negb (hook_aborts cfg)
    then S n else n.
Proof.
  rewrite ERR_RET_run. unfold counted, uncounted. simpl.
  destruct (condition s) as [v s1]. simpl.
  destruct (int_cast v =? 0); simpl; [|reflexivity].
  destruct (hook_aborts cfg); simpl; [reflexivity|].
  destruct (return_value s1); reflexivity.
Qed.

(** X4: the failure branch of each guarded construct is taken exactly when
    the value of the condition is a multiple of [2^32]: the conversion to
    [int] makes a nonzero condition of a wider type fail when its low 32 bits
    are all 0. *)
Theorem guarded_fails_iff_multiple cfg condition goto_label return_value s :
  (leaves (fst (ERR_GOTO (value:=value) cfg condition goto_label s)) = true
   <-> exists k : Z, fst (condition s) = k * 2 ^ INT_BITS)
  /\ (leaves (fst (ERR_RET (label:=label) cfg condition return_value s)) = true
      <-> exists k : Z, fst (condition s) = k * 2 ^ INT_BITS)
  /\ (leaves (fst (ERR_RET_VOID (label:=label) (value:=value) cfg condition s))
      = true
      <-> exists k : Z, fst (condition s) = k * 2 ^ INT_BITS).
Proof.
  rewrite ERR_GOTO_run, ERR_RET_run, ERR_RET_VOID_run.
  rewrite <- int_cast_zero_iff.
  destruct (Z.eqb_spec (int_cast (fst (condition s))) 0) as [Hz|Hz];
    destruct (hook_aborts cfg); simpl;
    repeat split; intros; try discriminate; try assumption; try contradiction.
Qed.

(** X5: for a condition whose value is in the range of [int], the failure
    branch of each guarded construct is taken exactly when the value is 0. *)
Theorem guarded_fails_iff_zero_in_range cfg condition goto_label return_value s :
  - 2 ^ (INT_BITS - 1) <= fst (condition s) < 2 ^ (INT_BITS - 1) ->
  (leaves (fst (ERR_GOTO (value:=value) cfg condition goto_label s)) = true
   <-> fst (condition s) = 0)
  /\ (leaves (fst (ERR_RET (label:=label) cfg condition return_value s)) = true
      <-> fst (condition s) = 0)
  /\ (leaves (fst (ERR_RET_VOID (label:=label) (value:=value) cfg condition s))
      = true
      <-> fst (condition s) = 0).
Proof.
  intros Hrange.
  rewrite ERR_GOTO_run, ERR_RET_run, ERR_RET_VOID_run.
  rewrite (int_cast_small _ Hrange).
  destruct (Z.eqb_spec (fst (condition s)) 0) as [Hz|Hz];
    destruct (hook_aborts cfg); simpl;
    repeat split; intros; try discriminate; try assumption; try contradiction.
Qed.

End Guarded_further.

Lemma ERR_RET_VOID_falsy_witness :
  ERR_RET_VOID (label:=string) (value:=Z) (Config true true)
    (fun x => (x, x + 1)) 0
  = (Leave Return_void, 1)
  /\ (ERR_RET_VOID (label:=string) (value:=Z) (Config true true)
        (fun x => (x, x + 1)) ;; goto "unreached") 0
     = ERR_RET_VOID (label:=string) (value:=Z) (Config true true)
         (fun x => (x, x + 1)) 0.
Proof.
  apply (ERR_RET_VOID_falsy (Config true true) (fun x => (x, x + 1))
           (goto "unreached") 0).
  reflexivity.
Defined.

Lemma guarded_fails_iff_zero_in_range_witness :
  (leaves (fst (ERR_GOTO (value:=Z) (Config false false) (pure (-7)) "cleanup" 0))
   = true <-> fst (pure (state:=Z) (-7) 0) = 0)
  /\ (leaves (fst (ERR_RET (label:=string) (Config false false) (pure (-7))
                     (pure (result_to_int RESULT_ERROR_OTHER)) 0)) = true
      <-> fst (pure (state:=Z) (-7) 0) = 0)
  /\ (leaves (fst (ERR_RET_VOID (label:=string) (value:=Z) (Config false false)
                     (pure (-7)) 0)) = true
      <-> fst (pure (state:=Z) (-7) 0) = 0).
Proof.
  apply (guarded_fails_iff_zero_in_range (Config false false) (pure (-7))
           "cleanup" (pure (result_to_int RESULT_ERROR_OTHER)) 0).
  vm_compute. split; [discriminate | reflexivity].
Defined.

(** ** ERR_RET_RESULT (result.h, lines 114-121) *)

Section Result_macro_further.

Context {state label : Type}.
Implicit Types (cfg : config) (enclosing : scope state) (result : expr state Z).

(** X7: where an [_ERRRESULT] is in scope, it decides what [ERR_RET_RESULT]
    does, and the argument's value plays no part: the construct completes when
    [_ERRRESULT] equals [RESULT_OK], and otherwise returns the value of
    [_ERRRESULT] (or aborts, under a live [assert(0)]). The state is the one
    the evaluation of the argument left. *)
Theorem ERR_RET_RESULT_decided_by_scope cfg enclosing result
  (get : state -> Z) s :
  enclosing "_ERRRESULT" = Some get ->
  option_map (fun body => body s)
    (@ERR_RET_RESULT state label cfg enclosing result)
  = Some (if get (snd (result s)) =? result_to_int RESULT_OK then Next tt
          else Leave (if hook_aborts cfg then Abort
                      else Return (get (snd (result s)))),
          snd (result s)).
Proof.
  intros H.
  destruct (ERR_RET_RESULT_run (label:=label) cfg enclosing result get H)
    as [body [Hbody Hrun]].
  rewrite Hbody. simpl. rewrite Hrun. reflexivity.
Qed.

(** X8: where its expansion is accepted, [ERR_RET_RESULT] evaluates its
    argument exactly once, on both branches and in every configuration. *)
Theorem ERR_RET_RESULT_argument_once cfg enclosing result
  (get : state -> Z) (n : nat) s :
  enclosing "_ERRRESULT" = Some get ->
  option_map (fun body => fst (snd (body (n, s))))
    (@ERR_RET_RESULT (nat * state) label cfg (scope_uncounted enclosing)
       (counted result))
  = Some (S n).
Proof.
  intros H.
  assert (H' : scope_uncounted enclosing "_ERRRESULT"
               = Some (fun '(_, s0) => get s0)).
  { unfold scope_uncounted. rewrite H. reflexivity. }
  destruct (ERR_RET_RESULT_run (label:=label) cfg (scope_uncounted enclosing)
              (counted result) _ H') as [body [Hbody Hrun]].
  rewrite Hbody. simpl. rewrite Hrun.
  unfold counted. destruct (result s) as [v s1]. simpl.
  destruct (get s1 =? 0); reflexivity.
Qed.

End Result_macro_further.

Lemma ERR_RET_RESULT_decided_by_scope_witness :
  option_map (fun body => body 5)
    (@ERR_RET_RESULT Z string (Config false false)
       (scope_with_ERRRESULT (result_to_int RESULT_ERROR_HARDWARE_BUSY))
       (fun x => (result_to_int RESULT_ERROR_OTHER, x + 1)))
  = Some (Leave (Return (result_to_int RESULT_ERROR_HARDWARE_BUSY)), 6).
Proof.
  apply (ERR_RET_RESULT_decided_by_scope (Config false false)
           (scope_with_ERRRESULT (result_to_int RESULT_ERROR_HARDWARE_BUSY))
           (fun x => (result_to_int RESULT_ERROR_OTHER, x + 1))
           (fun _ => result_to_int RESULT_ERROR_HARDWARE_BUSY) 5).
  reflexivity.
Defined.

Lemma ERR_RET_RESULT_argument_once_witness :
  option_map (fun body => fst (snd (body (0%nat, 5))))
    (@ERR_RET_RESULT (nat * Z) string (Config false false)
       (scope_uncounted (scope_with_ERRRESULT (result_to_int RESULT_OK)))
       (counted (fun x => (result_to_int RESULT_ERROR_OTHER, x + 1))))
  = Some 1%nat.
Proof.
  apply (ERR_RET_RESULT_argument_once (Config false false)
           (scope_with_ERRRESULT (result_to_int RESULT_OK))
           (fun x => (result_to_int RESULT_ERROR_OTHER, x + 1))
           (fun _ => result_to_int RESULT_OK) 0%nat 5).
  reflexivity.
Defined.

(** ** The enumeration (result.h, lines 45-54) *)

(** X9: the result options are numbered without a gap: an integer is the
    value of a result option exactly when it lies from 0 up to, and not
    including, [_RESULT_COUNT]. A table of [_RESULT_COUNT] entries indexed by
    a result option is thus covered entry by entry. *)
Theorem result_options_dense (z : Z) :
  (exists r : result_t, is_option r = true /\ result_to_int r = z)
  <-> 0 <= z < result_to_int _RESULT_COUNT.
Proof.
  split.
  - intros [r [Hopt <-]]. unfold is_option in Hopt. apply Z.ltb_lt in Hopt.
    pose proof (result_to_int_range r). lia.
  - intros H. simpl in H.
    destruct (result_of_int z) as [r|] eqn:Hr.
    + unfold result_of_int in Hr. apply find_some in Hr.
      destruct Hr as [_ Hr]. apply Z.eqb_eq in Hr.
      exists r. split; [|exact Hr].
      unfold is_option. apply Z.ltb_lt. simpl. lia.
    + exfalso. unfold result_of_int in Hr.
      assert (Hz : z = 0 \/ z = 1 \/ z = 2 \/ z = 3 \/ z = 4 \/ z = 5 \/ z = 6)
        by lia.
      repeat (destruct Hz as [-> | Hz]; [discriminate Hr|]).
      subst z. discriminate Hr.
Qed.
